(** * Execution-environment subsystem of the agent harness

    A shallow embedding of the parts of
    - [sweagent/environment/utils.py]      (reader, unicode guard, containers),
    - [sweagent/environment/swe_env.py]    (communicate, step, close),
    - [multi_swe_bench/harness/repos/...]  (the valkey, etcd and logstash log parsers)
    that the properties below talk about.

    Conventions.
    - A Python [str] is a list of code points ([N]); [bytes] is a list of
      [byte].  String literals of the sources are written with [lit].
    - Sets of test names are [gset str].
    - Code that raises returns [Raise e]; code that touches the outside
      world (clock, pipe, docker daemon) threads an explicit world. *)

From Stdlib Require Import ZArith NArith QArith Qround Lqa Ascii String.
From Stdlib Require Import Strings.Byte.
From stdpp Require Import gmap list.

#[local] Set Warnings "-clear-no-such-hyp".
#[local] Open Scope N_scope.
#[local] Open Scope list_scope.

(** ** Python built-ins on [str] *)

Module Py.

Definition str := list N.
Definition bytes := list byte.

(** A source literal (ASCII) as a [str]. *)
Definition lit (s : string) : str := map N_of_ascii (list_ascii_of_string s).

Definition LF : N := 10.
Definition CR : N := 13.

Definition in_range (lo hi c : N) : bool := (lo <=? c) && (c <=? hi).

(** [str.isspace] for one character: the Unicode white-space set used by
    [str.strip()], [str.split()] and the regex class [\s]. *)
Definition is_space (c : N) : bool :=
  in_range 9 13 c || in_range 28 32 c || (c =? 133) || (c =? 160)
  || (c =? 5760) || in_range 8192 8202 c || (c =? 8232) || (c =? 8233)
  || (c =? 8239) || (c =? 8287) || (c =? 12288).

(** Line boundaries of [str.splitlines]. *)
Definition is_linebreak (c : N) : bool :=
  in_range 10 13 c || in_range 28 30 c || (c =? 133) || (c =? 8232) || (c =? 8233).

Fixpoint lstrip (s : str) : str :=
  match s with
  | c :: r => if is_space c then lstrip r else s
  | [] => []
  end.

Definition rstrip (s : str) : str := rev (lstrip (rev s)).
Definition strip (s : str) : str := rstrip (lstrip s).

(** [splitlines_go after_cr cur s]: [cur] is the current line, reversed;
    [after_cr] records that the previous character was a carriage return,
    so that a line feed coming next belongs to the same boundary. *)
Fixpoint splitlines_go (after_cr : bool) (cur : str) (s : str) : list str :=
  match s with
  | [] => match cur with [] => [] | _ => [rev cur] end
  | c :: r =>
      if after_cr && (c =? LF) then splitlines_go false cur r
      else if is_linebreak c then rev cur :: splitlines_go (c =? CR) [] r
      else splitlines_go false (c :: cur) r
  end.

Definition splitlines (s : str) : list str := splitlines_go false [] s.

Definition str_eqb (a b : str) : bool := bool_decide (a = b).

Fixpoint startswith (s p : str) : bool :=
  match p, s with
  | [], _ => true
  | a :: p', b :: s' => (a =? b) && startswith s' p'
  | _ :: _, [] => false
  end.

Definition endswith (s p : str) : bool := startswith (rev s) (rev p).

(** [p in s] for strings. *)
Fixpoint contains (s p : str) : bool :=
  startswith s p || match s with [] => false | _ :: r => contains r p end.

(** [s.replace(old, new)] for a non-empty [old]: leftmost, non-overlapping. *)
Fixpoint replace_go (fuel : nat) (old new s : str) : str :=
  match fuel with
  | O => s
  | S k =>
      match s with
      | [] => []
      | c :: r =>
          if startswith s old
          then new ++ replace_go k old new (drop (length old) s)
          else c :: replace_go k old new r
      end
  end.

Definition replace (old new s : str) : str :=
  match old with
  | [] => s (* not used by the sources with an empty pattern *)
  | _ => replace_go (length s) old new s
  end.

(** ["sep".join(parts)] *)
Fixpoint join (sep : str) (parts : list str) : str :=
  match parts with
  | [] => []
  | [p] => p
  | p :: ps => p ++ sep ++ join sep ps
  end.

(** [s.rfind(c)] for a one-character needle: index of the last occurrence. *)
Fixpoint rfind_go (c : N) (s : str) (i : nat) (last : option nat) : option nat :=
  match s with
  | [] => last
  | x :: r => rfind_go c r (S i) (if x =? c then Some i else last)
  end.

Definition rfind (s : str) (c : N) : option nat := rfind_go c s 0%nat None.

(** [s.split()] with no argument: maximal runs of non-space characters. *)
Fixpoint split_ws_go (cur : str) (s : str) : list str :=
  match s with
  | [] => match cur with [] => [] | _ => [rev cur] end
  | c :: r =>
      if is_space c
      then match cur with [] => split_ws_go [] r | _ => rev cur :: split_ws_go [] r end
      else split_ws_go (c :: cur) r
  end.

Definition split_ws (s : str) : list str := split_ws_go [] s.

(** [s.split("\n")]: always at least one field. *)
Fixpoint split_nl_go (cur : str) (s : str) : list str :=
  match s with
  | [] => [rev cur]
  | c :: r => if c =? LF then rev cur :: split_nl_go [] r else split_nl_go (c :: cur) r
  end.

Definition split_nl (s : str) : list str := split_nl_go [] s.

End Py.

Import Py.

(** ** The fragment of Python's [re] used by the sources

    A backtracking matcher with the priorities of [re]: a greedy
    quantifier tries one more iteration first, a lazy one tries to stop
    first; alternatives are explored in that order and the first complete
    match wins. *)

Module Re.

Inductive regex :=
| Chr (c : N)                       (* a literal character *)
| Dot                               (* [.] *)
| Space                             (* [\s] *)
| NotSpace                          (* [\S] *)
| Bol                               (* [^] *)
| Eol                               (* [$] *)
| Eps
| Cat (r1 r2 : regex)
| Opt (greedy : bool) (r : regex)   (* [r?] *)
| Star (greedy : bool) (r : regex)  (* [r*], [r*?] *)
| Group (n : nat) (r : regex).      (* the n-th capturing group *)

Definition Plus (greedy : bool) (r : regex) : regex := Cat r (Star greedy r).

(** A literal run of characters. *)
Fixpoint Str_go (s : str) : regex :=
  match s with
  | [] => Eps
  | [c] => Chr c
  | c :: r => Cat (Chr c) (Str_go r)
  end.
Definition Str (s : string) : regex := Str_go (lit s).

Fixpoint Seq (rs : list regex) : regex :=
  match rs with
  | [] => Eps
  | [r] => r
  | r :: rs' => Cat r (Seq rs')
  end.

(** Captures: group number to captured text, latest binding first. *)
Definition caps := list (nat * str).

Fixpoint group (n : nat) (cs : caps) : option str :=
  match cs with
  | [] => None
  | (m, s) :: r => if Nat.eqb m n then Some s else group n r
  end.

Definition orelse {A} (a b : option A) : option A :=
  match a with Some _ => a | None => b end.

Definition one_char (ok : N -> bool) (pos : nat) (s : str) (cs : caps)
    (k : nat -> str -> caps -> option caps) : option caps :=
  match s with
  | c :: r => if ok c then k (S pos) r cs else None
  | [] => None
  end.

(** [run dotall r pos s cs k]: match [r] against the remaining input [s],
    which starts [pos] characters into the subject, then continue with [k]. *)
Fixpoint run (dotall : bool) (r : regex) (pos : nat) (s : str) (cs : caps)
    (k : nat -> str -> caps -> option caps) {struct r} : option caps :=
  match r with
  | Chr c => one_char (N.eqb c) pos s cs k
  | Dot => one_char (fun c => dotall || negb (c =? LF)) pos s cs k
  | Space => one_char is_space pos s cs k
  | NotSpace => one_char (fun c => negb (is_space c)) pos s cs k
  | Bol => if Nat.eqb pos 0 then k pos s cs else None
  | Eol => match s with
           | [] => k pos s cs
           | [c] => if c =? LF then k pos s cs else None
           | _ => None
           end
  | Eps => k pos s cs
  | Cat r1 r2 => run dotall r1 pos s cs (fun pos' s' cs' => run dotall r2 pos' s' cs' k)
  | Opt greedy r1 =>
      if greedy then orelse (run dotall r1 pos s cs k) (k pos s cs)
      else orelse (k pos s cs) (run dotall r1 pos s cs k)
  | Star greedy r1 =>
      (fix loop (fuel : nat) (pos : nat) (s : str) (cs : caps) {struct fuel} : option caps :=
         match fuel with
         | O => k pos s cs
         | S fuel' =>
             let more :=
               run dotall r1 pos s cs
                 (fun pos' s' cs' =>
                    if (pos <? pos')%nat then loop fuel' pos' s' cs' else None) in
             if greedy then orelse more (k pos s cs) else orelse (k pos s cs) more
         end) (length s) pos s cs
  | Group n r1 =>
      run dotall r1 pos s cs
        (fun pos' s' cs' => k pos' s' ((n, take (pos' - pos) s) :: cs'))
  end.

Definition accept : nat -> str -> caps -> option caps := fun _ _ cs => Some cs.

(** [pattern.match(s)]: anchored at the start of [s]. *)
Definition rmatch (r : regex) (s : str) : option caps := run false r 0 s [] accept.

(** [pattern.search(s)]: the leftmost position with a match. *)
Fixpoint search_go (dotall : bool) (r : regex) (pos : nat) (s : str) : option caps :=
  orelse (run dotall r pos s [] accept)
         match s with
         | [] => None
         | _ :: s' => search_go dotall r (S pos) s'
         end.

Definition search (r : regex) (s : str) : option caps := search_go false r 0 s.
Definition search_dotall (r : regex) (s : str) : option caps := search_go true r 0 s.

(** [m.group(1)] of [pattern.match(s)], when there is a match. *)
Definition match_group1 (r : regex) (s : str) : option str :=
  match rmatch r s with
  | Some cs => group 1 cs
  | None => None
  end.

End Re.

Import Re.

(** ** Log parsers: [Valkey.parse_log], [Etcd.parse_log], [Logstash.parse_log] *)

Module Parsers.

(** Modelled from the spec: the [TestResult] type, which the parsers import
    from [multi_swe_bench.harness.instance] (declared outside the files
    modelled here): "Two sets (passed, failed) plus optional skipped, with
    counts."  The parsers fill it with their three local sets and the
    sizes of those sets. *)
Record TestResult := mkTestResult {
  passed_count : nat;
  failed_count : nat;
  skipped_count : nat;
  passed_tests : gset str;
  failed_tests : gset str;
  skipped_tests : gset str;
}.

(** The three local sets of a [parse_log] call. *)
Record sets := mkSets {
  passed : gset str;
  failed : gset str;
  skipped : gset str;
}.

Definition no_tests : sets := mkSets ∅ ∅ ∅.

Definition result_of (st : sets) : TestResult :=
  {| passed_count := size (passed st);
     failed_count := size (failed st);
     skipped_count := size (skipped st);
     passed_tests := passed st;
     failed_tests := failed st;
     skipped_tests := skipped st |}.

(** [for re in res: m = re.match(line); if m: body(m.group(1))] *)
Definition for_each_match (res : list regex) (line : str)
    (body : str -> sets -> sets) (st : sets) : sets :=
  foldl (fun st re =>
           match match_group1 re line with
           | Some name => body name st
           | None => st
           end) st res.

(** *** valkey ([c/valkey_io/valkey.py]) *)
Module Valkey.

(** [^\[ok\]: (.+?)( \(.+\))?$] and its two siblings. *)
Definition tcl_line (tag : string) : regex :=
  Seq [Bol; Str tag; Str ": "; Group 1 (Plus false Dot);
       Opt true (Group 2 (Seq [Str " ("; Plus true Dot; Str ")"])); Eol].

Definition re_passes : list regex := [tcl_line "[ok]"].
Definition re_fails : list regex := [tcl_line "[err]"; tcl_line "[exception]"].

Definition on_line (st : sets) (line : str) : sets :=
  let line := strip line in
  match line with
  | [] => st
  | _ =>
      let st := for_each_match re_passes line
                  (fun test st => mkSets ({[test]} ∪ passed st) (failed st) (skipped st)) st in
      for_each_match re_fails line
        (fun test st => mkSets (passed st) ({[test]} ∪ failed st) (skipped st)) st
  end.

Definition parse_log (test_log : str) : TestResult :=
  result_of (foldl on_line no_tests (splitlines test_log)).

End Valkey.

(** *** etcd ([golang/etcd_io/etcd.py]) *)
Module Etcd.

Definition re_pass_tests : list regex :=
  [Seq [Str "--- PASS: "; Group 1 (Plus true NotSpace)]].
Definition re_fail_tests : list regex :=
  [Seq [Str "--- FAIL: "; Group 1 (Plus true NotSpace)];
   (* [FAIL:?\s?(.+?)\s] *)
   Seq [Str "FAIL"; Opt true (Str ":"); Opt true Space; Group 1 (Plus false Dot); Space]].
Definition re_skip_tests : list regex :=
  [Seq [Str "--- SKIP: "; Group 1 (Plus true NotSpace)]].

Definition get_base_name (test_name : str) : str :=
  match rfind test_name 47 (* "/" *) with
  | None => test_name
  | Some index => take index test_name
  end.

Definition on_pass (test_name : str) (st : sets) : sets :=
  if decide (test_name ∈ failed st) then st
  else mkSets ({[get_base_name test_name]} ∪ passed st) (failed st) (skipped st).

Definition on_fail (test_name : str) (st : sets) : sets :=
  mkSets (passed st ∖ {[test_name]})
         ({[get_base_name test_name]} ∪ failed st)
         (skipped st ∖ {[test_name]}).

Definition on_skip (test_name : str) (st : sets) : sets :=
  if decide (test_name ∈ failed st) then st
  else mkSets (passed st) (failed st) ({[get_base_name test_name]} ∪ skipped st).

Definition on_line (st : sets) (line : str) : sets :=
  let line := strip line in
  let st := for_each_match re_pass_tests line on_pass st in
  let st := for_each_match re_fail_tests line on_fail st in
  for_each_match re_skip_tests line on_skip st.

Definition parse_log (test_log : str) : TestResult :=
  result_of (foldl on_line no_tests (splitlines test_log)).

End Etcd.

(** *** logstash ([java/elastic/logstash.py]) *)
Module Logstash.

Definition task_line (suffix : string) : regex :=
  Seq [Bol; Str "> Task :"; Group 1 (Plus true NotSpace); Str suffix; Eol].
Definition test_line (suffix : string) : regex :=
  Seq [Bol; Group 1 (Seq [Plus true Dot; Str " > "; Plus true Dot]); Str suffix; Eol].

Definition passed_res : list regex :=
  [task_line ""; task_line " UP-TO-DATE"; test_line " PASSED"].
Definition failed_res : list regex :=
  [task_line " FAILED"; test_line " FAILED"].
Definition skipped_res : list regex :=
  [task_line " SKIPPED"; task_line " NO-SOURCE"; test_line " SKIPPED"].

Definition on_pass (name : str) (st : sets) : sets :=
  if decide (name ∈ failed st) then st
  else mkSets ({[name]} ∪ passed st) (failed st) (skipped st).

Definition on_fail (name : str) (st : sets) : sets :=
  mkSets (passed st ∖ {[name]}) ({[name]} ∪ failed st) (skipped st).

Definition on_skip (name : str) (st : sets) : sets :=
  mkSets (passed st) (failed st) ({[name]} ∪ skipped st).

Definition on_line (st : sets) (line : str) : sets :=
  let st := for_each_match passed_res line on_pass st in
  let st := for_each_match failed_res line on_fail st in
  for_each_match skipped_res line on_skip st.

Definition parse_log (test_log : str) : TestResult :=
  result_of (foldl on_line no_tests (splitlines test_log)).

End Logstash.

End Parsers.



(** ** The parsers seen as folds over match events

    Each [parse_log] visits the lines in order and, on a line, the pass,
    fail and skip patterns in order.  The definitions below name what one
    line contributes; the lemmas further down show that every parser is
    the left fold of its update over these events. *)

Module ParserEvents.
Import Parsers.

(** What one line contributes: the names captured by the pass, fail and
    skip patterns, in the order in which [parse_log] visits them. *)
Inductive event := EvPass (n : str) | EvFail (n : str) | EvSkip (n : str).

Definition captures (res : list regex) (line : str) : list str :=
  omap (fun re => match_group1 re line) res.

Definition line_events (pr fr sr : list regex) (line : str) : list event :=
  (EvPass <$> captures pr line) ++ (EvFail <$> captures fr line)
  ++ (EvSkip <$> captures sr line).

Definition pass_names (evs : list event) : gset str :=
  list_to_set (omap (fun e => match e with EvPass n => Some n | _ => None end) evs).
Definition fail_names (evs : list event) : gset str :=
  list_to_set (omap (fun e => match e with EvFail n => Some n | _ => None end) evs).
Definition skip_names (evs : list event) : gset str :=
  list_to_set (omap (fun e => match e with EvSkip n => Some n | _ => None end) evs).


Definition logstash_apply (st : sets) (e : event) : sets :=
  match e with
  | EvPass n => Logstash.on_pass n st
  | EvFail n => Logstash.on_fail n st
  | EvSkip n => Logstash.on_skip n st
  end.

Definition logstash_events (line : str) : list event :=
  line_events Logstash.passed_res Logstash.failed_res Logstash.skipped_res line.


Definition valkey_apply (st : sets) (e : event) : sets :=
  match e with
  | EvPass n => mkSets ({[n]} ∪ passed st) (failed st) (skipped st)
  | EvFail n => mkSets (passed st) ({[n]} ∪ failed st) (skipped st)
  | EvSkip n => st
  end.

Definition valkey_events (line : str) : list event :=
  line_events Valkey.re_passes Valkey.re_fails [] (strip line).


Definition etcd_apply (st : sets) (e : event) : sets :=
  match e with
  | EvPass n => Etcd.on_pass n st
  | EvFail n => Etcd.on_fail n st
  | EvSkip n => Etcd.on_skip n st
  end.

Definition etcd_events (line : str) : list event :=
  line_events Etcd.re_pass_tests Etcd.re_fail_tests Etcd.re_skip_tests (strip line).


End ParserEvents.

(** ** Exceptions *)

Module Exn.

(** The exception classes that the modelled code raises or catches. *)
Inductive exn_class :=
| BaseException | KeyboardInterrupt | Exception
| RuntimeError | AssertionError | ValueError | UnicodeError
| NameError | LookupError | IndexError
| OSError | TimeoutError | NoOutputTimeoutError
| ConnectionError | BrokenPipeError | BlockingIOError.

#[global] Instance exn_class_eq_dec : EqDecision exn_class.
Proof. solve_decision. Defined.

(** The direct base class.  [class NoOutputTimeoutError(TimeoutError): ...]
    is the one class declared by the harness itself ([utils.py]); the
    others are built in. *)
Definition base (c : exn_class) : option exn_class :=
  match c with
  | BaseException => None
  | KeyboardInterrupt => Some BaseException
  | Exception => Some BaseException
  | RuntimeError | AssertionError | ValueError | NameError | LookupError | OSError =>
      Some Exception
  | UnicodeError => Some ValueError
  | IndexError => Some LookupError
  | TimeoutError | ConnectionError | BlockingIOError => Some OSError
  | NoOutputTimeoutError => Some TimeoutError
  | BrokenPipeError => Some ConnectionError
  end.

Fixpoint subclass_go (fuel : nat) (c k : exn_class) : bool :=
  bool_decide (c = k) ||
  match fuel with
  | O => false
  | S fuel' => match base c with
               | Some b => subclass_go fuel' b k
               | None => false
               end
  end.

(** [issubclass(c, k)]; no chain of bases is longer than five. *)
Definition issubclass (c k : exn_class) : bool := subclass_go 5 c k.

(** A raised exception: its class and its [args]. *)
Record exn := mkExn { cls : exn_class; args : list str }.

(** Does [except k] catch [e]? *)
Definition caught_by (k : exn_class) (e : exn) : bool := issubclass (cls e) k.

Inductive res (A : Type) :=
| Ok (a : A)
| Raise (e : exn).
Arguments Ok {A} a.
Arguments Raise {A} e.

End Exn.

Import Exn.

(** ** UTF-8 decoding, as [bytes.decode] does it *)

Module Utf8.

(** What the decoder makes of the next bytes: a code point read from
    [width] bytes, or a range of bytes it cannot decode (the range that
    [UnicodeDecodeError.start] and [.end] delimit). *)
Inductive tok :=
| Cp (c : N) (width : nat)
| Bad (range : bytes).

Definition is_cont (c : N) : bool := in_range 128 191 c.

Definition cp2 (c1 c2 : N) : N := N.lor (N.shiftl (N.land c1 31) 6) (N.land c2 63).
Definition cp3 (c1 c2 c3 : N) : N :=
  N.lor (N.shiftl (N.land c1 15) 12) (N.lor (N.shiftl (N.land c2 63) 6) (N.land c3 63)).
Definition cp4 (c1 c2 c3 c4 : N) : N :=
  N.lor (N.shiftl (N.land c1 7) 18)
    (N.lor (N.shiftl (N.land c2 63) 12) (N.lor (N.shiftl (N.land c3 63) 6) (N.land c4 63))).

Fixpoint tokens (s : bytes) : list tok :=
  match s with
  | [] => []
  | x1 :: r1 =>
      let c1 := Byte.to_N x1 in
      if c1 <? 128 then Cp c1 1 :: tokens r1
      else if c1 <? 194 then Bad [x1] :: tokens r1          (* invalid start byte *)
      else if c1 <? 224 then
        match r1 with
        | [] => [Bad [x1]]                                  (* unexpected end of data *)
        | x2 :: r2 =>
            let c2 := Byte.to_N x2 in
            if is_cont c2 then Cp (cp2 c1 c2) 2 :: tokens r2
            else Bad [x1] :: tokens r1                      (* invalid continuation byte *)
        end
      else if c1 <? 240 then
        match r1 with
        | [] => [Bad [x1]]
        | x2 :: r2 =>
            let c2 := Byte.to_N x2 in
            if negb (is_cont c2) || (if c2 <? 160 then c1 =? 224 else c1 =? 237)
            then Bad [x1] :: tokens r1
            else
              match r2 with
              | [] => [Bad [x1; x2]]
              | x3 :: r3 =>
                  let c3 := Byte.to_N x3 in
                  if is_cont c3 then Cp (cp3 c1 c2 c3) 3 :: tokens r3
                  else Bad [x1; x2] :: tokens r2
              end
        end
      else if c1 <? 245 then
        match r1 with
        | [] => [Bad [x1]]
        | x2 :: r2 =>
            let c2 := Byte.to_N x2 in
            if negb (is_cont c2) || (if c2 <? 144 then c1 =? 240 else c1 =? 244)
            then Bad [x1] :: tokens r1
            else
              match r2 with
              | [] => [Bad [x1; x2]]
              | x3 :: r3 =>
                  let c3 := Byte.to_N x3 in
                  if negb (is_cont c3) then Bad [x1; x2] :: tokens r2
                  else
                    match r3 with
                    | [] => [Bad [x1; x2; x3]]
                    | x4 :: r4 =>
                        let c4 := Byte.to_N x4 in
                        if is_cont c4 then Cp (cp4 c1 c2 c3 c4) 4 :: tokens r4
                        else Bad [x1; x2; x3] :: tokens r3
                    end
              end
        end
      else Bad [x1] :: tokens r1                            (* invalid start byte *)
  end.

(** [buffer.decode()] (strict): [None] when it succeeds, else the [start]
    of the [UnicodeDecodeError], an index into the bytes decoded. *)
Fixpoint error_start_go (pos : nat) (ts : list tok) : option nat :=
  match ts with
  | [] => None
  | Cp _ w :: r => error_start_go (pos + w) r
  | Bad _ :: _ => Some pos
  end.

Definition decode_error_start (s : bytes) : option nat := error_start_go 0 (tokens s).

Definition hex_digit (d : N) : N := if d <? 10 then 48 + d else 87 + d.

(** One undecodable byte under [errors="backslashreplace"]. *)
Definition backslash_escape (b : byte) : str :=
  let c := Byte.to_N b in [92; 120; hex_digit (c / 16); hex_digit (c mod 16)].

Definition tok_text (t : tok) : str :=
  match t with
  | Cp c _ => [c]
  | Bad range => concat (map backslash_escape range)
  end.

(** [buffer.decode("utf-8", errors="backslashreplace")] *)
Definition decode_backslashreplace (s : bytes) : str := concat (map tok_text (tokens s)).

(** The bytes of an ASCII literal, [b"..."]. *)
Definition blit (s : string) : bytes := list_byte_of_string s.

End Utf8.

Import Utf8.

(** ** The command reader ([utils.py]) *)

Module Reader.

Definition PROCESS_DONE_MARKER_START : str := lit "///PROCESS-DONE:".
Definition PROCESS_DONE_MARKER_END : str := lit ":PROCESS-DONE///".

(** [re.compile(rf"{PROCESS_DONE_MARKER_START}(.+?){PROCESS_DONE_MARKER_END}")] *)
Definition PROCESS_DONE_REGEX : regex :=
  Seq [Str "///PROCESS-DONE:"; Group 1 (Plus false Dot); Str ":PROCESS-DONE///"].

(** [int(DECODED_BUFFER_FAILURE_THRESHOLD * len(buffer))] with the threshold
    [0.1].  The double nearest to 0.1 is (1 + 2^-54)/10: the product is
    never below the exact tenth, it is exact on multiples of ten, and for
    lengths below 2^40 its error stays far below 0.1, so truncating it
    gives the integer quotient by 10. *)
Definition number_of_failures (buffer : bytes) : nat := length buffer / 10.

Definition too_many_msg : str := lit "Too many non-unicode characters in output of command.".

(** The [for _ in range(number_of_failures)] loop: [n] iterations are left,
    the next strict decode starts at [start_byte]. *)
Fixpoint check_loop (n : nat) (start_byte : nat) (buffer : bytes) : res unit :=
  match n with
  | O => Raise (mkExn UnicodeError [too_many_msg])
  | S n' =>
      match decode_error_start (drop start_byte buffer) with
      | None => Ok tt
      | Some start => check_loop n' (start + 1) buffer
      end
  end.

Definition _check_for_too_many_non_unicode_bytes (buffer : bytes) : res unit :=
  check_loop (number_of_failures buffer) 0 buffer.

(** *** The pipe and the clock

    Clock time is counted in clock ticks ([Z]); the resolution is left open but is
    at most the 10 ms of [time.sleep(0.01)], so that the sleep at the end of
    an iteration moves the clock by at least one tick.  The timeouts are
    given in the same unit. *)

(** What one iteration of the read loop finds on the pipe. *)
Inductive probe :=
| NotReady                 (* [ready_to_read(fd)] is false *)
| ReadFails                (* [os.read] raises [BlockingIOError] *)
| Read (data : bytes).     (* [os.read] returns [data], possibly empty *)

(** One iteration as the world plays it: what is on the pipe, how long
    [select] and [os.read] take ([d_read], so that new bytes are
    time-stamped [d_read] ticks after the loop test), and how much longer
    than one tick the rest of the iteration takes ([d_rest]). *)
Record tick := mkTick { arrival : probe; d_read : nat; d_rest : nat }.

Definition quiet : tick := mkTick NotReady 0 0.

Record world := mkWorld {
  t0 : Z;                  (* [start_time = time.time()] *)
  ticks : list tick;       (* the iterations, in order; quiet ever after *)
  poll : option Z;         (* [container.poll()] after the loop *)
  d_final : nat;           (* ticks between leaving the loop and [current_time = time.time()] *)
}.

Definition dt (n : nat) : Z := Z.of_nat n.

(** [buffer.decode("utf-8", errors="backslashreplace").replace("\r\n", "\n")] *)
Definition decode_buffer (buffer : bytes) : str :=
  replace [CR; LF] [LF] (decode_backslashreplace buffer).

(** State of the reader when the [while] loop is left. *)
Record loop_out := mkOut {
  buffer : bytes;
  process_done : bool;
  blocked : bool;            (* left through the [BlockingIOError] break *)
  end_time_no_output : Z;
  t_exit : Z;                (* clock when the loop is left *)
}.

(** [while time.time() < min(end_time, end_time_no_output): ...].
    [now] is the clock at the loop test.  Every iteration moves the clock
    forward, so [Z.to_nat (end_time - now)] rounds suffice; see
    [read_loop_while] below for the loop equation. *)
Fixpoint read_loop (fuel : nat) (ts : list tick) (no_output_timeout_duration end_time : Z)
    (now end_no : Z) (buf : bytes) {struct fuel} : loop_out :=
  match fuel with
  | O => mkOut buf false false end_no now
  | S fuel' =>
      if (now <? Z.min end_time end_no)%Z then
        let tk := hd quiet ts in
        let t_read := (now + dt (d_read tk))%Z in
        let t_next := (t_read + 1 + dt (d_rest tk))%Z in
        match arrival tk with
        | NotReady =>
            read_loop fuel' (tl ts) no_output_timeout_duration end_time t_next end_no buf
        | ReadFails => mkOut buf false true end_no t_read
        | Read [] =>
            read_loop fuel' (tl ts) no_output_timeout_duration end_time t_next end_no buf
        | Read data =>
            let end_no' := (t_read + no_output_timeout_duration)%Z in
            let buf' := buf ++ data in
            if contains (decode_buffer buf') PROCESS_DONE_MARKER_START
            then mkOut buf' true false end_no' t_read
            else read_loop fuel' (tl ts) no_output_timeout_duration end_time t_next end_no' buf'
        end
      else mkOut buf false false end_no now
  end.

Definition run_loop (w : world) (timeout_duration no_output_timeout_duration : Z) : loop_out :=
  read_loop (Z.to_nat timeout_duration) (ticks w) no_output_timeout_duration
    (t0 w + timeout_duration) (t0 w) (t0 w + no_output_timeout_duration) [].

(** ["\n".join(line for line in decoded.splitlines()
               if not line.startswith(PROCESS_DONE_MARKER_START))] *)
Definition body_of (decoded : str) : str :=
  join [LF] (filter (fun line => startswith line PROCESS_DONE_MARKER_START = false)
               (splitlines decoded)).

(** [for line in reversed(lines): _results = REGEX.search(line); if _results
    is not None: break]: [None] when the loop body never runs (then
    [_results] is unbound), else the value [_results] is left with. *)
Fixpoint last_results (rev_lines : list str) : option (option caps) :=
  match rev_lines with
  | [] => None
  | line :: r =>
      match search PROCESS_DONE_REGEX line with
      | Some m => Some (Some m)
      | None => match r with [] => Some None | _ => last_results r end
      end
  end.

Definition read_with_timeout_experimental (w : world)
    (timeout_duration no_output_timeout_duration : Z) : res (str * str) :=
  let end_time := (t0 w + timeout_duration)%Z in
  let out := run_loop w timeout_duration no_output_timeout_duration in
  let decoded := decode_buffer (buffer out) in
  let body := body_of decoded in
  match poll w with
  | Some _ =>
      Raise (mkExn RuntimeError
               [lit "Subprocess exited unexpectedly.
Current buffer: " ++ decoded; body])
  | None =>
      let current_time := (t_exit out + dt (d_final w))%Z in
      if negb (process_done out)
         && (Z.min end_time (end_time_no_output out) <=? current_time)%Z
      then
        if (end_time <=? current_time)%Z
        then Raise (mkExn TimeoutError
                      [lit "Timeout reached while reading from subprocess.
Current buffer: " ++ decoded; body])
        else Raise (mkExn NoOutputTimeoutError
                      [lit "No output timeout reached while reading from subprocess.
Current buffer: " ++ decoded; body])
      else
        match _check_for_too_many_non_unicode_bytes (buffer out) with
        | Raise e => Raise e
        | Ok _ =>
            match last_results (rev (splitlines decoded)) with
            | None => Raise (mkExn NameError [])   (* [_results] was never bound *)
            | Some None =>
                (* the message also shows [decoded] and [body] *)
                Raise (mkExn ValueError
                         [lit "Could not find process done marker in last line: "])
            | Some (Some m) =>
                match group 1 m with
                | Some exit_code =>
                    Ok (replace (PROCESS_DONE_MARKER_START ++ exit_code
                                   ++ PROCESS_DONE_MARKER_END) [] body,
                        exit_code)
                | None => Raise (mkExn IndexError [])
                end
            end
        end
  end.

End Reader.

(** ** Effects: a world is threaded through, and a raise ends the computation *)

Module Eff.

Definition M (W A : Type) : Type := W → res A * W.

Definition ret {W A} (a : A) : M W A := fun w => (Ok a, w).
Definition raise {W A} (e : exn) : M W A := fun w => (Raise e, w).
Definition bind {W A B} (m : M W A) (k : A → M W B) : M W B :=
  fun w => match m w with
           | (Ok a, w') => k a w'
           | (Raise e, w') => (Raise e, w')
           end.
Definition get {W} : M W W := fun w => (Ok w, w).
Definition modify {W} (f : W → W) : M W unit := fun w => (Ok tt, f w).
Definition lift {W A} (r : res A) : M W A := fun w => (r, w).

(** [try: m except: h] with the handler seeing every exception; a handler
    re-raises what its [except] clauses do not catch. *)
Definition try_with {W A} (m : M W A) (h : exn → M W A) : M W A :=
  fun w => match m w with
           | (Ok a, w') => (Ok a, w')
           | (Raise e, w') => h e w'
           end.

Declare Scope eff_scope.
Delimit Scope eff_scope with eff.
Notation "'let*' p ':=' m 'in' k" := (bind m (fun p => k))
  (at level 10, p pattern, m at level 100, k at level 200) : eff_scope.

End Eff.

Import Eff.
#[local] Open Scope eff_scope.

(** ** Containers ([utils.py]) *)

Module Containers.

Inductive status := Created | Running | Exited | Paused | Dead.

#[global] Instance status_eq_dec : EqDecision status.
Proof. solve_decision. Defined.

(** A container as the docker daemon knows it. *)
Record container := mkContainer {
  name : str;
  image : str;
  state : status;
  auto_remove : bool;     (* removed by the daemon as soon as it exits *)
}.

Record world := mkWorld {
  images : list str;            (* images in the local store *)
  containers : list container;
  shells : list (list str);     (* command lines started with [subprocess.Popen] *)
  setup_read : res str;         (* what [read_with_timeout(container, lambda: [], 2)] gives *)
  ps_outputs : list str;        (* decoded outputs of the next [ps] calls, in order *)
  ps_steady : str;              (* output of every [ps] call after those *)
}.

Definition set_containers (cs : list container) (w : world) : world :=
  mkWorld (images w) cs (shells w) (setup_read w) (ps_outputs w) (ps_steady w).

Definition popen (cmd : list str) : M world unit :=
  modify (fun w => mkWorld (images w) (containers w) (shells w ++ [cmd])
                     (setup_read w) (ps_outputs w) (ps_steady w)).

(** [container_obj.exec_run("ps -eo pid,comm --no-headers").output.decode()] *)
Definition exec_ps : M world str :=
  fun w => match ps_outputs w with
           | out :: rest =>
               (Ok out, mkWorld (images w) (containers w) (shells w) (setup_read w)
                          rest (ps_steady w))
           | [] => (Ok (ps_steady w), w)
           end.

Definition field (i : nat) (x : list str) : str := nth i x [].

(** [get_background_pids]: rows [[pid, comm, ...]] of the shells and of the
    other processes.  A row with fewer than two fields makes [x[1]] raise. *)
Definition get_background_pids : M world (list (list str) * list (list str)) :=
  let* output := exec_ps in
  let pids := map split_ws (filter (fun x => negb (str_eqb x [])) (split_nl output)) in
  if forallb (fun x => (2 <=? length x)%nat) pids then
    let pids := filter (fun x => negb (str_eqb (field 1 x) (lit "ps"))
                                 && negb (str_eqb (field 0 x) (lit "1"))) pids in
    let bash_pids := filter (fun x => str_eqb (field 1 x) (lit "bash")) pids in
    let other_pids := filter (fun x => negb (str_eqb (field 1 x) (lit "bash"))) pids in
    ret (bash_pids, other_pids)
  else raise (mkExn IndexError [lit "list index out of range"]).

Definition alien_msg : str :=
  lit "Detected alien processes attached or running. Please ensure that no other agents are running on this container. PIDs: ".

Section with_delay.

(** [DOCKER_START_UP_DELAY], in seconds. *)
Variable DOCKER_START_UP_DELAY : Q.

Definition aliens (bash_pids other_pids : list (list str)) : bool :=
  (1 <? length bash_pids)%nat || (0 <? length other_pids)%nat.

(** [while len(bash_pids) > 1 or len(other_pids) > 0: ...], at most
    [fuel] rounds; [wait_rounds] rounds are always enough. *)
Fixpoint wait_loop (fuel : nat) (total_time_slept : Q)
    (bash_pids other_pids : list (list str)) {struct fuel}
    : M world (list (list str) * list (list str)) :=
  if aliens bash_pids other_pids then
    match fuel with
    | O => ret (bash_pids, other_pids)
    | S fuel' =>
        let total_time_slept := (total_time_slept + 1)%Q in
        let* (bash_pids, other_pids) := get_background_pids in
        if negb (Qle_bool total_time_slept (5 * DOCKER_START_UP_DELAY))
        then ret (bash_pids, other_pids)
        else wait_loop fuel' total_time_slept bash_pids other_pids
    end
  else ret (bash_pids, other_pids).

Definition wait_rounds : nat := S (Z.to_nat (Qfloor (4 * DOCKER_START_UP_DELAY))).

(** The end of [_get_persistent_container]: the parent PIDs, or the
    alien-processes error. *)
Definition settle (bash_pids other_pids : list (list str)) : res (gset str) :=
  match bash_pids with
  | [x] => Ok {[field 0 x; lit "1"]}
  | _ =>
      if aliens bash_pids other_pids
      then Raise (mkExn RuntimeError [alien_msg])   (* the message also lists the rows *)
      else Ok {[lit "1"]}
  end.

Definition with_state (s : status) (c : container) : container :=
  mkContainer (name c) (image c) s (auto_remove c).

Definition named (ctr_name : str) (c : container) : bool := str_eqb (name c) ctr_name.

(** [container_obj.start()], [.restart()], [.unpause()]: the container runs. *)
Definition set_running (ctr_name : str) : M world unit :=
  modify (fun w => set_containers
            (map (fun c => if named ctr_name c then with_state Running c else c)
                 (containers w)) w).

(** [client.containers.run(image_name, ..., detach=True, auto_remove=...)] *)
Definition containers_run (image_name ctr_name : str) (auto_rm : bool) : M world unit :=
  modify (fun w => set_containers
            (containers w ++ [mkContainer ctr_name image_name Running auto_rm]) w).

Definition read_setup_output : M world str := fun w => (setup_read w, w).

(** The handle of the shell subprocess is the name of the container it is
    attached to. *)
Definition _get_persistent_container (ctr_name image_name : str) (persistent : bool)
    : M world (str * gset str) :=
  let* w := get in
  let* _ :=
    match find (named ctr_name) (containers w) with
    | Some container_obj =>
        match state container_obj with
        | Created | Exited | Paused => set_running ctr_name
        | Running => ret tt
        | Dead => raise (mkExn RuntimeError [lit "Unexpected container status: dead"])
        end
    | None => containers_run image_name ctr_name (negb persistent)
    end in
  let* _ := popen [lit "docker"; lit "exec"; lit "-i"; ctr_name; lit "/bin/bash"; lit "-l"] in
  let* _ := read_setup_output in
  let* (bash_pids, other_pids) := get_background_pids in
  let* (bash_pids, other_pids) :=
    wait_loop wait_rounds DOCKER_START_UP_DELAY bash_pids other_pids in
  let* parent_pids := lift (settle bash_pids other_pids) in
  ret (ctr_name, parent_pids).

Definition _get_non_persistent_container (ctr_name image_name : str)
    : M world (str * gset str) :=
  let* _ := popen [lit "docker"; lit "run"; lit "-i"; lit "--rm"; lit "--name"; ctr_name;
                   image_name; lit "/bin/bash"] in
  let* _ := containers_run image_name ctr_name true in
  let* _ := read_setup_output in
  ret (ctr_name, {[lit "1"]}).

Definition image_exists (image_name : str) : M world bool :=
  let* w := get in ret (bool_decide (image_name ∈ images w)).

Definition image_missing_msg (image_name : str) : str :=
  lit "Image " ++ image_name ++
  lit " not found. Please ensure it is built and available. Please double-check that you followed all installation/setup instructions from the readme.".

(** [get_container]: the persistent branch calls
    [_get_persistent_container(ctr_name, image_name)], with the third
    parameter left at its default [False]. *)
Definition get_container (ctr_name image_name : str) (persistent : bool)
    : M world (str * gset str) :=
  let* ok := image_exists image_name in
  if negb ok then raise (mkExn RuntimeError [image_missing_msg image_name])
  else if persistent then _get_persistent_container ctr_name image_name false
  else _get_non_persistent_container ctr_name image_name.

End with_delay.

End Containers.

(** ** The environment ([swe_env.py]): [communicate], [interrupt], [close], [step] *)

Module Env.

(** Values read from the configuration when the module is loaded.  Clock time is
    counted in the clock ticks of the reader. *)
Inductive communicate_method := EndMarker | Processes.

Record config := mkConfig {
  ticks_per_second : Z;
  LONG_TIMEOUT : Z;                        (* default 500 seconds *)
  AGENT_ACTION_TIMEOUT : Z;                (* default 50 seconds *)
  AGENT_ACTION_NO_OUTPUT_TIMEOUT : Z;      (* default [AGENT_ACTION_TIMEOUT] *)
  SWE_AGENT_COMMUNICATE_METHOD : communicate_method;   (* default [end-marker] *)
}.

(** The state of a [SWEEnv] together with what it talks to. *)
Record env := mkEnv {
  cfg : config;
  (* attributes of [SWEEnv] *)
  returncode : option Z;
  communicate_output : option str;
  persistent : bool;
  parent_pids : gset str;
  (* the shell subprocess [self.container] *)
  stdin_log : list str;                    (* what was written to its stdin, in order *)
  terminations : nat;                      (* calls of [self.container.terminate()] *)
  pipe_broken : bool;                      (* writing to its stdin raises [BrokenPipeError] *)
  answers : list Reader.world;             (* how the shell answers the next commands *)
  drains : list (res str);                 (* what the next [read_with_timeout] calls give *)
  (* the docker side [self.container_obj] *)
  container_obj : option Containers.status;
  removed : bool;
  kills : list str;                        (* PIDs handed to [kill -9], in order *)
  ps_outputs : list str;                   (* decoded outputs of the next [ps] calls *)
  ps_steady : str;
}.

Definition seconds (n : Z) : M env Z :=
  fun w => (Ok (ticks_per_second (cfg w) * n)%Z, w).

Definition set_returncode (rc : option Z) : M env unit :=
  modify (fun w => mkEnv (cfg w) rc (communicate_output w) (persistent w) (parent_pids w)
    (stdin_log w) (terminations w) (pipe_broken w) (answers w) (drains w)
    (container_obj w) (removed w) (kills w) (ps_outputs w) (ps_steady w)).

Definition set_communicate_output (out : option str) : M env unit :=
  modify (fun w => mkEnv (cfg w) (returncode w) out (persistent w) (parent_pids w)
    (stdin_log w) (terminations w) (pipe_broken w) (answers w) (drains w)
    (container_obj w) (removed w) (kills w) (ps_outputs w) (ps_steady w)).

(** [self.container.terminate()] *)
Definition terminate : M env unit :=
  modify (fun w => mkEnv (cfg w) (returncode w) (communicate_output w) (persistent w)
    (parent_pids w) (stdin_log w) (S (terminations w)) (pipe_broken w) (answers w)
    (drains w) (container_obj w) (removed w) (kills w) (ps_outputs w) (ps_steady w)).

(** [os.write(self.container.stdin.fileno(), cmd.encode())] *)
Definition write_stdin (cmd : str) : M env unit :=
  fun w =>
    if pipe_broken w then (Raise (mkExn BrokenPipeError [lit "Broken pipe"]), w)
    else (Ok tt, mkEnv (cfg w) (returncode w) (communicate_output w) (persistent w)
            (parent_pids w) (stdin_log w ++ [cmd]) (terminations w) (pipe_broken w)
            (answers w) (drains w) (container_obj w) (removed w) (kills w)
            (ps_outputs w) (ps_steady w)).

Definition silent_shell : Reader.world := Reader.mkWorld 0 [] None 0.

(** [read_with_timeout_experimental(self.container, ...)] against the
    shell's next answer. *)
Definition read_answer (timeout_duration no_output_timeout_duration : Z)
    : M env (str * str) :=
  fun w =>
    (Reader.read_with_timeout_experimental (hd silent_shell (answers w))
       timeout_duration no_output_timeout_duration,
     mkEnv (cfg w) (returncode w) (communicate_output w) (persistent w) (parent_pids w)
       (stdin_log w) (terminations w) (pipe_broken w) (tl (answers w)) (drains w)
       (container_obj w) (removed w) (kills w) (ps_outputs w) (ps_steady w)).

(** [read_with_timeout(self.container, self.get_pids, 20)]: its outcome is
    the next one the world has in store. *)
Definition read_drain : M env str :=
  fun w =>
    (hd (Ok []) (drains w),
     mkEnv (cfg w) (returncode w) (communicate_output w) (persistent w) (parent_pids w)
       (stdin_log w) (terminations w) (pipe_broken w) (answers w) (tl (drains w))
       (container_obj w) (removed w) (kills w) (ps_outputs w) (ps_steady w)).

Definition exec_ps : M env str :=
  fun w =>
    match ps_outputs w with
    | out :: rest =>
        (Ok out, mkEnv (cfg w) (returncode w) (communicate_output w) (persistent w)
                   (parent_pids w) (stdin_log w) (terminations w) (pipe_broken w)
                   (answers w) (drains w) (container_obj w) (removed w) (kills w)
                   rest (ps_steady w))
    | [] => (Ok (ps_steady w), w)
    end.

(** [self.container_obj.exec_run(f"kill -9 {pid}")] *)
Definition exec_kill (pid : str) : M env unit :=
  modify (fun w => mkEnv (cfg w) (returncode w) (communicate_output w) (persistent w)
    (parent_pids w) (stdin_log w) (terminations w) (pipe_broken w) (answers w)
    (drains w) (container_obj w) (removed w) (kills w ++ [pid]) (ps_outputs w)
    (ps_steady w)).

Definition set_container_obj (st : option Containers.status) (gone : bool) : M env unit :=
  modify (fun w => mkEnv (cfg w) (returncode w) (communicate_output w) (persistent w)
    (parent_pids w) (stdin_log w) (terminations w) (pipe_broken w) (answers w)
    (drains w) st gone (kills w) (ps_outputs w) (ps_steady w)).

Definition is_digit (c : N) : bool := in_range 48 57 c.

Fixpoint digits_value (acc : Z) (s : str) : Z :=
  match s with
  | [] => acc
  | c :: r => digits_value (10 * acc + Z.of_N (c - 48)) r
  end.

(** [int(s)] for the decimal notation a shell prints: optional blanks
    around an optional sign and ASCII digits.  Anything else is a
    [ValueError]. *)
Definition int_of_str (s : str) : res Z :=
  let bad := Raise (mkExn ValueError [lit "invalid literal for int() with base 10"]) in
  let num (sign : Z) (ds : str) :=
    match ds with
    | [] => bad
    | _ => if forallb is_digit ds then Ok (sign * digits_value 0 ds)%Z else bad
    end in
  match strip s with
  | 45 :: ds => num (-1)%Z ds
  | 43 :: ds => num 1%Z ds
  | ds => num 1%Z ds
  end.

Definition with_newline (input : str) : str :=
  if endswith input [LF] then input else input ++ [LF].

Definition command_suffix : str :=
  lit "echo " ++ Reader.PROCESS_DONE_MARKER_START ++ lit "$?"
  ++ Reader.PROCESS_DONE_MARKER_END ++ [LF].

Definition broken_pipe_as_runtime_error (e : exn) : M env unit :=
  if caught_by BrokenPipeError e
  then raise (mkExn RuntimeError [lit "Failed to communicate with container"])
  else raise e.

Definition _communicate_experimental (input : str)
    (timeout_duration no_output_timeout_duration : Z) : M env str :=
  let* _ :=
    try_with
      (let* _ := set_returncode None in
       write_stdin (with_newline input ++ command_suffix))
      broken_pipe_as_runtime_error in
  let* (buffer, exit_code) := read_answer timeout_duration no_output_timeout_duration in
  let* rc := lift (int_of_str exit_code) in
  let* _ := set_returncode (Some rc) in
  ret buffer.

(** [s.isdigit()] for the text a shell prints: non-empty, ASCII digits
    only (the digits of other scripts are not modelled). *)
Definition isdigit (s : str) : bool :=
  match s with [] => false | _ => forallb is_digit s end.

(** [_communicate]: the end-marker protocol, or else the older one that
    waits for the processes to finish and asks for the exit code with a
    second command.  The older reader [read_with_timeout] is answered by
    the world ([read_drain]). *)
Definition _communicate (input : str) (timeout_duration no_output_timeout_duration : Z)
    : M env str :=
  let* w := get in
  match SWE_AGENT_COMMUNICATE_METHOD (cfg w) with
  | EndMarker =>
      _communicate_experimental input timeout_duration no_output_timeout_duration
  | Processes =>
      let* _ :=
        try_with
          (let* _ := set_returncode None in write_stdin (with_newline input))
          broken_pipe_as_runtime_error in
      let* buffer := read_drain in
      let* _ := write_stdin (lit "echo $?" ++ [LF]) in
      let* exit_code := read_drain in
      let exit_code := strip exit_code in
      if negb (isdigit exit_code)
      then raise (mkExn RuntimeError
                    [lit "Container crashed. Failed to get exit code. Output:" ++ [LF]
                     ++ lit "---" ++ [LF] ++ buffer ++ [LF] ++ lit "---"])
      else
        let* rc := lift (int_of_str exit_code) in
        let* _ := set_returncode (Some rc) in
        ret buffer
  end.

Definition heredoc (input : str) : str :=
  lit "/bin/bash -n <<'EOF'" ++ [LF] ++ input ++ [LF] ++ lit "EOF" ++ [LF].

Definition _check_syntax (input : str) : M env (str * bool) :=
  let* t := seconds 25 in
  let* output := _communicate (heredoc input) t t in
  let* w := get in
  ret (output, bool_decide (returncode w = Some 0%Z)).

Definition communicate (input : str) (timeout_duration no_output_timeout_duration : Z)
    : M env str :=
  if negb (str_eqb (strip input) (lit "exit")) then
    let* (output, valid) := _check_syntax input in
    if negb valid then ret output   (* shows syntax errors *)
    else
      let* output := _communicate input timeout_duration no_output_timeout_duration in
      let* _ := set_communicate_output (Some output) in
      ret output
  else
    let* _ := terminate in
    let* _ := set_returncode (Some 0%Z) in
    let* _ := set_communicate_output (Some []) in
    ret [].

(** [get_pids()] with [all_pids=False]. *)
Definition get_pids : M env (list (list str)) :=
  let* output := exec_ps in
  let* w := get in
  let pids := map split_ws (filter (fun x => negb (str_eqb x [])) (split_nl output)) in
  if forallb (fun x => (2 <=? length x)%nat) pids then
    ret (filter (fun x =>
                   negb (bool_decide (Containers.field 1 x
                                      ∈ [lit "ps"; lit "npm"; lit "yarn"; lit "sh"]))
                   && negb (bool_decide (Containers.field 0 x ∈ parent_pids w))) pids)
  else raise (mkExn IndexError [lit "list index out of range"]).

Fixpoint kill_all (pids : list (list str)) : M env unit :=
  match pids with
  | [] => ret tt
  | p :: r => let* _ := exec_kill (Containers.field 0 p) in kill_all r
  end.

Definition interrupt : M env str :=
  let* pids := get_pids in
  let* _ := kill_all (rev pids) in
  let* observation :=
    try_with read_drain
      (fun e => if caught_by TimeoutError e then ret [] else raise e) in
  let* _ :=
    try_with
      (let* t5 := seconds 5 in
       let* t25 := seconds 25 in
       let* _ := communicate (lit "echo 'interrupted'") t5 t25 in
       let* output := communicate (lit "echo 'interrupted'") t5 t25 in
       if endswith (strip output) (lit "interrupted") then ret tt
       else raise (mkExn AssertionError [lit "container health check failed"]))
      (fun e => if caught_by TimeoutError e
                then raise (mkExn RuntimeError [lit "Failed to interrupt container"])
                else raise e) in
  ret observation.

(** [close()]; the [on_close] callbacks of the hooks are not modelled. *)
Definition close : M env unit :=
  let* _ :=
    try_with
      (let* t25 := seconds 25 in
       let* _ := communicate (lit "exit") t25 t25 in ret tt)
      (fun e => if caught_by KeyboardInterrupt e then raise e else ret tt) in
  let* _ := terminate in
  let* w := get in
  match container_obj w with
  | None => ret tt
  | Some st =>
      if persistent w then
        match st with
        | Containers.Paused | Containers.Exited | Containers.Dead => ret tt
        | _ => set_container_obj (Some Containers.Paused) false   (* [pause()] *)
        end
      else set_container_obj (Some st) true                       (* [remove(force=True)] *)
  end.

(** The submission pattern of [get_submission]: the literal
    [<<SUBMISSION||], a greedy run of any characters (group 1), the literal
    [||SUBMISSION>>]; searched with [re.DOTALL]. *)
Definition SUBMISSION_REGEX : regex :=
  Seq [Str "<<SUBMISSION||"; Group 1 (Star true Dot); Str "||SUBMISSION>>"].

Definition get_submission (output : str) : option str :=
  match search_dotall SUBMISSION_REGEX output with
  | Some m => group 1 m
  | None => None
  end.

(** [action_hacking] of [utils.py]. *)
Definition action_hacking (action : str) : str :=
  let action :=
    if contains action (lit "./gradlew")
    then rstrip action ++ lit "; echo " ++ Reader.PROCESS_DONE_MARKER_START ++ lit "$?"
         ++ Reader.PROCESS_DONE_MARKER_END ++ [LF]
    else action in
  if contains action (lit "npm run") || contains action (lit "yarn run")
  then lit "(nohup  " ++ action ++ lit " & > /dev/null) && sleep 30 && cat /dev/null " ++ [LF]
  else action.

(** The [info] dictionary: a key that was never set is [None]; the key
    [submission] can hold Python's [None]. *)
Record info := mkInfo {
  exit_status : option str;
  submission : option (option str);
}.

Definition no_info : info := mkInfo None None.

(** [(observation, reward, done, info)] *)
Definition step_result : Type := option str * Z * bool * info.

Definition EXIT_ACTIONS : list str :=
  [lit "exit_context"; lit "exit_cost"; lit "exit_error"; lit "exit_format"; lit "exit_api"].

Definition arg1 (e : exn) : str := nth 1 (args e) [].

Definition TIMEOUT_BANNER : str :=
  [LF] ++ lit "EXECUTION TIMED OUT"
  ++ lit " BECAUSE NO OUTPUT WAS PRODUCED FOR MORE THAN 500 SECONDS." ++ [LF]
  ++ lit "PLEASE REFINE YOUR RUNNING COMMAND SO IT WILL PRODUCE OUTPUT IN THE SPECIFIED TIME FRAME.".

(** The end of [step]: truncation, then the search for a submission. *)
Definition finish (observation : str) : M env step_result :=
  let observation :=
    if (40000 <? Z.of_nat (length observation))%Z
    then take (Z.to_nat 20000) observation ++ lit "..."
         ++ drop (length observation - Z.to_nat 20000) observation
    else observation in
  match get_submission observation with
  | Some sub =>
      let shown := match strip sub with [] => None | _ => Some sub end in
      ret (shown, 0%Z, true, mkInfo (Some (lit "submitted")) (Some shown))
  | None => ret (Some observation, 0%Z, false, no_info)
  end.

Definition early_exit (observation : str) : M env step_result :=
  let* _ := close in
  ret (Some observation, 0%Z, true, mkInfo (Some (lit "early_exit")) None).

(** The body of [except TimeoutError as e:] in [step]. *)
Definition timeout_recovery (e : exn) : M env step_result :=
  let observation := arg1 e in
  fun w =>
    match interrupt w with
    | (Ok out, w') => finish (observation ++ out ++ TIMEOUT_BANNER) w'
    | (Raise e2, w') =>
        if caught_by RuntimeError e2
        then early_exit (observation ++ arg1 e2 ++ [LF]
                         ++ lit "EXECUTION TIMED OUT AND INTERRUPT FAILED.") w'
        else (Raise e2, w')
    end.

(** What [step] does with the outcome of [self.communicate(input=action, ...)]:
    the [except] clauses in their order, then the common end. *)
Definition after_communicate (r : res str) : M env step_result :=
  match r with
  | Ok observation => finish observation
  | Raise e =>
      if caught_by TimeoutError e then timeout_recovery e
      else if caught_by RuntimeError e
      then early_exit ([LF] ++ lit "COMMAND FAILED TO EXECUTE.")
      else if caught_by BrokenPipeError e
      then early_exit ([LF] ++ lit "BROKEN PIPE ERROR.")
      else if caught_by Exception e
      then finish ([LF] ++ lit "EXECUTION FAILED OR COMMAND MALFORMED")
      else raise e
  end.

(** The branch of [step] for the exit actions. *)
Definition autosubmit (action : str) : M env step_result :=
  try_with
    (let* w := get in
     let* t25 := seconds 25 in
     let* observation := communicate (lit "submit") (AGENT_ACTION_TIMEOUT (cfg w)) t25 in
     match get_submission observation with
     | Some sub =>
         match strip sub with
         | [] => raise (mkExn AssertionError [lit "No submission found."])
         | _ => ret (Some (lit "Exited (autosubmitted)"), 0%Z, true,
                     mkInfo (Some (lit "submitted (" ++ action ++ lit ")"))
                            (Some (Some sub)))
         end
     | None => raise (mkExn AssertionError [lit "No submission found."])
     end)
    (fun e => if caught_by KeyboardInterrupt e then raise e
              else ret (Some (lit "Exited"), 0%Z, true, mkInfo (Some action) None)).

Definition step (action : str) : M env step_result :=
  if str_eqb (strip action) (lit "skip")
  then ret (Some (lit "Skipped"), 0%Z, true, mkInfo (Some (lit "skipped")) None)
  else if bool_decide (action ∈ EXIT_ACTIONS) then autosubmit action
  else
    let action := action_hacking action in
    fun w =>
      let '(r, w') := communicate action (LONG_TIMEOUT (cfg w))
                        (AGENT_ACTION_NO_OUTPUT_TIMEOUT (cfg w)) w in
      after_communicate r w'.

End Env.

(** ** Concrete inputs used by the examples below *)

Module Inputs.



(** A Go log with nested subtests: the parent fails, a subtest passes and
    a test nested below that subtest fails. *)
Definition go_nested : str := lit "--- FAIL: A
--- PASS: A/x
--- FAIL: A/x/y
".


End Inputs.

(** Worlds for the reader: a shell that prints nothing.  In the first the
    shell process has died; in the second the clock is read three ticks
    after the loop is left. *)
Module ReaderInputs.
Import Reader.


(** A shell that prints [par] during the second iteration and then
    nothing more. *)
Definition partial_output : world :=
  mkWorld 100 [quiet; mkTick (Read (blit "par")) 0 0] None 0.

(** A shell that answers [hi] and the end marker with exit code 0. *)
Definition prompt_answer : world :=
  mkWorld 100 [mkTick (Read (blit "hi
///PROCESS-DONE:0:PROCESS-DONE///
")) 0 0] None 0.

End ReaderInputs.

(** Docker worlds.  In each the image [img] is present.  [fresh] has no
    container yet; in [with_alien] a paused container [box] exists and
    every [ps] shows the session shell next to a [python] process. *)
Module ContainerInputs.
Import Containers.

Definition img : str := lit "img".
Definition box : str := lit "box".

Definition ps_one_shell : str := lit "    1 bash
    7 bash
   15 ps
".

Definition ps_shell_and_python : str := lit "    1 bash
    7 bash
    9 python
   15 ps
".

Definition fresh : world :=
  mkWorld [img] [] [] (Ok []) [] ps_one_shell.

Definition with_alien : world :=
  mkWorld [img] [mkContainer box img Paused false] [] (Ok []) [] ps_shell_and_python.

End ContainerInputs.

(** Environments.  Ticks are 10 ms long; the time-outs have their default
    values (500, 50 and 50 seconds) and the communicate method is the
    default one. *)
Module EnvInputs.
Import Env.

Definition defaults : config := mkConfig 100 50000 5000 5000 EndMarker.

(** The shell prints [text] at once. *)
Definition answer (text : string) : Reader.world :=
  Reader.mkWorld 0 [Reader.mkTick (Reader.Read (blit text)) 0 0] None 0.

(** The answer to a command that prints nothing and succeeds; this is
    also what a passed syntax check looks like. *)
Definition done_0 : Reader.world := answer "///PROCESS-DONE:0:PROCESS-DONE///
".

Definition interrupted : Reader.world := answer "interrupted
///PROCESS-DONE:0:PROCESS-DONE///
".

(** A session whose shell gives the answers [answers]; a [sleep] process
    with PID 42 runs in the container. *)
Definition session (answers : list Reader.world) : env :=
  mkEnv defaults None None false {[lit "1"]} [] 0 false answers [Ok []]
    (Some Containers.Running) false []
    [] (lit "    1 bash
   42 sleep
   77 ps
").



(** The command prints [par] and then hangs; the two health checks of
    [interrupt] are answered. *)
Definition hanging_session : env :=
  session [done_0; ReaderInputs.partial_output;
           done_0; interrupted; done_0; interrupted].

End EnvInputs.
(** * Properties *)

(** ** Lines of a duplicated log *)

Section splitlines_facts.

Lemma splitlines_go_cut (a : str) : ∀ (f : bool) (cur b : str),
  (f = true → cur = []) →
  splitlines_go f cur (a ++ LF :: b)
  = splitlines_go f cur (a ++ [LF]) ++ splitlines_go false [] b.
Proof.
  induction a as [|c a IH]; intros f cur b Hf; simpl.
  - destruct f; simpl.
    + rewrite (Hf eq_refl). reflexivity.
    + reflexivity.
  - destruct (f && (c =? LF)) eqn:E1.
    + apply IH. intros _. destruct f; [auto | discriminate].
    + destruct (is_linebreak c).
      * simpl. f_equal. apply IH. auto.
      * apply IH. discriminate.
Qed.

Lemma splitlines_app_nl (a b : str) :
  splitlines ((a ++ [LF]) ++ b) = splitlines (a ++ [LF]) ++ splitlines b.
Proof.
  unfold splitlines. rewrite <- app_assoc. simpl.
  apply splitlines_go_cut. discriminate.
Qed.

Lemma ends_with_nl (L : str) : last L = Some LF → ∃ a, L = a ++ [LF].
Proof.
  intros H. destruct (last_Some L LF) as [[a Ha] _]; eauto.
Qed.

Lemma splitlines_twice (L : str) :
  last L = Some LF → splitlines (L ++ L) = splitlines L ++ splitlines L.
Proof.
  intros [a ->]%ends_with_nl. apply splitlines_app_nl.
Qed.

End splitlines_facts.

(** ** Parsers as folds over match events *)

Module ParserFacts.
Import Parsers ParserEvents.

Lemma for_each_match_captures res line body st :
  for_each_match res line body st
  = foldl (fun st n => body n st) st (captures res line).
Proof.
  unfold for_each_match, captures. revert st.
  induction res as [|re res IH]; intros st; simpl; [done|].
  destruct (match_group1 re line); simpl; apply IH.
Qed.

Lemma foldl_fmap_event {A} (f : sets → event → sets) (g : A → event) st (l : list A) :
  foldl f st (g <$> l) = foldl (fun st x => f st (g x)) st l.
Proof. revert st. induction l; intros; simpl; auto. Qed.

Lemma foldl_concat {A B} (f : A → B → A) (ls : list (list B)) (a : A) :
  foldl f a (concat ls) = foldl (fun a l => foldl f a l) a ls.
Proof.
  revert a. induction ls as [|l ls IH]; intros a; simpl; [done|].
  rewrite foldl_app. apply IH.
Qed.

Lemma pass_names_app e1 e2 : pass_names (e1 ++ e2) = pass_names e1 ∪ pass_names e2.
Proof. unfold pass_names. rewrite omap_app, list_to_set_app_L. done. Qed.
Lemma fail_names_app e1 e2 : fail_names (e1 ++ e2) = fail_names e1 ∪ fail_names e2.
Proof. unfold fail_names. rewrite omap_app, list_to_set_app_L. done. Qed.
Lemma skip_names_app e1 e2 : skip_names (e1 ++ e2) = skip_names e1 ∪ skip_names e2.
Proof. unfold skip_names. rewrite omap_app, list_to_set_app_L. done. Qed.

Lemma sets_eq (a b : sets) :
  passed a = passed b → failed a = failed b → skipped a = skipped b → a = b.
Proof. destruct a, b; simpl; congruence. Qed.

(** *** logstash *)

Lemma logstash_on_line st line :
  Logstash.on_line st line = foldl logstash_apply st (logstash_events line).
Proof.
  unfold Logstash.on_line, logstash_events, line_events.
  rewrite !for_each_match_captures, !foldl_app, !foldl_fmap_event. done.
Qed.

Lemma logstash_fold st lines :
  foldl Logstash.on_line st lines
  = foldl logstash_apply st (concat (logstash_events <$> lines)).
Proof.
  rewrite foldl_concat. revert st.
  induction lines as [|l ls IH]; intros st; simpl; [done|].
  rewrite logstash_on_line. apply IH.
Qed.

(** Closed form of a run of the logstash loop from any starting sets. *)
Lemma logstash_closed_form evs : ∀ st,
  foldl logstash_apply st evs
  = mkSets ((passed st ∪ (pass_names evs ∖ failed st)) ∖ fail_names evs)
           (failed st ∪ fail_names evs)
           (skipped st ∪ skip_names evs).
Proof.
  induction evs as [|e evs IH]; intros st.
  - destruct st; simpl. apply sets_eq; simpl; set_solver.
  - simpl. rewrite IH. destruct e as [n|n|n]; simpl;
      unfold Logstash.on_pass, Logstash.on_fail, Logstash.on_skip.
    + destruct (decide (n ∈ failed st)); apply sets_eq; simpl;
        unfold pass_names, fail_names, skip_names; simpl; set_solver.
    + apply sets_eq; simpl;
        unfold pass_names, fail_names, skip_names; simpl; set_solver.
    + apply sets_eq; simpl;
        unfold pass_names, fail_names, skip_names; simpl; set_solver.
Qed.



(** *** valkey *)

Lemma valkey_on_line st line :
  Valkey.on_line st line = foldl valkey_apply st (valkey_events line).
Proof.
  unfold Valkey.on_line, valkey_events, line_events.
  destruct (strip line) as [|c l] eqn:E.
  - reflexivity.
  - rewrite !for_each_match_captures, !foldl_app, !foldl_fmap_event.
    simpl. done.
Qed.

Lemma valkey_fold st lines :
  foldl Valkey.on_line st lines
  = foldl valkey_apply st (concat (valkey_events <$> lines)).
Proof.
  rewrite foldl_concat. revert st.
  induction lines as [|l ls IH]; intros st; simpl; [done|].
  rewrite valkey_on_line. apply IH.
Qed.

Lemma valkey_closed_form evs : ∀ st,
  foldl valkey_apply st evs
  = mkSets (passed st ∪ pass_names evs) (failed st ∪ fail_names evs) (skipped st).
Proof.
  induction evs as [|e evs IH]; intros st.
  - destruct st; simpl. apply sets_eq; simpl; set_solver.
  - simpl. rewrite IH. destruct e as [n|n|n]; apply sets_eq; simpl;
      unfold pass_names, fail_names; simpl; set_solver.
Qed.

(** *** etcd *)

Lemma etcd_on_line st line :
  Etcd.on_line st line = foldl etcd_apply st (etcd_events line).
Proof.
  unfold Etcd.on_line, etcd_events, line_events.
  rewrite !for_each_match_captures, !foldl_app, !foldl_fmap_event. done.
Qed.

Lemma etcd_fold st lines :
  foldl Etcd.on_line st lines
  = foldl etcd_apply st (concat (etcd_events <$> lines)).
Proof.
  rewrite foldl_concat. revert st.
  induction lines as [|l ls IH]; intros st; simpl; [done|].
  rewrite etcd_on_line. apply IH.
Qed.

(** The failed set of the Go parser only grows, by the base names of the
    fail captures. *)
Lemma etcd_failed_closed_form evs : ∀ st,
  failed (foldl etcd_apply st evs)
  = failed st ∪ set_map Etcd.get_base_name (fail_names evs).
Proof.
  induction evs as [|e evs IH]; intros st.
  - simpl. unfold fail_names. simpl. set_solver.
  - simpl. rewrite IH. destruct e as [n|n|n]; simpl;
      unfold Etcd.on_pass, Etcd.on_skip, fail_names; simpl.
    + destruct (decide (n ∈ failed st)); done.
    + set_solver.
    + destruct (decide (n ∈ failed st)); done.
Qed.

(** *** Duplicated logs *)

Lemma events_twice (ev : str → list event) (L : str) :
  last L = Some LF →
  concat (ev <$> splitlines (L ++ L))
  = concat (ev <$> splitlines L) ++ concat (ev <$> splitlines L).
Proof.
  intros H. rewrite splitlines_twice by done.
  by rewrite fmap_app, concat_app.
Qed.

Lemma valkey_duplicate (L : str) :
  last L = Some LF → Valkey.parse_log (L ++ L) = Valkey.parse_log L.
Proof.
  intros H. unfold Valkey.parse_log. f_equal.
  rewrite !valkey_fold, (events_twice _ _ H), !valkey_closed_form.
  rewrite pass_names_app, fail_names_app.
  apply sets_eq; simpl; set_solver.
Qed.

Lemma logstash_duplicate (L : str) :
  last L = Some LF → Logstash.parse_log (L ++ L) = Logstash.parse_log L.
Proof.
  intros H. unfold Logstash.parse_log. f_equal.
  rewrite !logstash_fold, (events_twice _ _ H), !logstash_closed_form.
  rewrite pass_names_app, fail_names_app, skip_names_app.
  apply sets_eq; simpl; set_solver.
Qed.

Lemma etcd_duplicate_failed (L : str) :
  last L = Some LF →
  failed_tests (Etcd.parse_log (L ++ L)) = failed_tests (Etcd.parse_log L).
Proof.
  intros H. unfold Etcd.parse_log. simpl.
  rewrite !etcd_fold, (events_twice _ _ H), !etcd_failed_closed_form.
  rewrite fail_names_app. set_solver.
Qed.

End ParserFacts.

(** ** Properties of the log parsers *)

Module ParserProps.
Import Parsers ParserEvents ParserFacts.

Lemma elem_of_concat_events {A} (ev : str → list A) (lines : list str) (x : A) :
  x ∈ concat (ev <$> lines) ↔ ∃ line, line ∈ lines ∧ x ∈ ev line.
Proof.
  induction lines as [|l ls IH]; simpl.
  - split; [intros H; inversion H | intros (? & H & _); inversion H].
  - rewrite elem_of_app, IH. split.
    + intros [H | (line & H1 & H2)]; [exists l | exists line]; split; auto;
        [left | by right].
    + intros (line & H1 & H2). inversion H1; subst; [by left | right; eauto].
Qed.












(** *** Hierarchical Go test names *)







(** C7 at the log [go_nested], which ends in a newline: parsing it once
    leaves [A] in the passed set, parsing the doubled log leaves the passed
    set empty.  On the second round [--- FAIL: A] removes [A] (it is in
    the passed set by then) and [--- PASS: A/x] is refused because the
    base name [A/x] of [A/x/y] is in the failed set by then. *)
Theorem etcd_duplicate_changes_passed :
  let L := Inputs.go_nested in
  last L = Some LF
  ∧ passed_tests (Etcd.parse_log L) = {[lit "A"]}
  ∧ failed_tests (Etcd.parse_log L) = {[lit "A"; lit "A/x"]}
  ∧ passed_tests (Etcd.parse_log (L ++ L)) = ∅
  ∧ failed_tests (Etcd.parse_log (L ++ L)) = {[lit "A"; lit "A/x"]}
  ∧ Etcd.parse_log (L ++ L) ≠ Etcd.parse_log L.
Proof.
  repeat split; try (vm_compute; reflexivity).
  vm_compute. intros H. discriminate H.
Qed.

End ParserProps.

(** ** Properties of the reader *)

Module ReaderFacts.
Import Reader.

(** The loop equation: with enough rounds, [read_loop] is the [while]
    loop of the source. *)
Lemma read_loop_while fuel ts N end_time now end_no buf :
  (Z.to_nat (end_time - now) ≤ fuel)%nat →
  read_loop fuel ts N end_time now end_no buf
  = if (now <? Z.min end_time end_no)%Z then
      let tk := hd quiet ts in
      let t_read := (now + dt (d_read tk))%Z in
      let t_next := (t_read + 1 + dt (d_rest tk))%Z in
      match arrival tk with
      | NotReady => read_loop (pred fuel) (tl ts) N end_time t_next end_no buf
      | ReadFails => mkOut buf false true end_no t_read
      | Read [] => read_loop (pred fuel) (tl ts) N end_time t_next end_no buf
      | Read data =>
          if contains (decode_buffer (buf ++ data)) PROCESS_DONE_MARKER_START
          then mkOut (buf ++ data) true false (t_read + N) t_read
          else read_loop (pred fuel) (tl ts) N end_time t_next (t_read + N) (buf ++ data)
      end
    else mkOut buf false false end_no now.
Proof.
  intros Hfuel. destruct fuel as [|fuel]; simpl.
  - destruct (Z.ltb_spec now (Z.min end_time end_no)); [lia | done].
  - done.
Qed.

(** More rounds than needed change nothing. *)
Lemma read_loop_fuel fuel : ∀ fuel' ts N end_time now end_no buf,
  (Z.to_nat (end_time - now) ≤ fuel)%nat → (fuel ≤ fuel')%nat →
  read_loop fuel' ts N end_time now end_no buf
  = read_loop fuel ts N end_time now end_no buf.
Proof.
  induction fuel as [|fuel IH]; intros fuel' ts N end_time now end_no buf H1 H2.
  - rewrite (read_loop_while fuel') by lia. simpl.
    destruct (Z.ltb_spec now (Z.min end_time end_no)); [lia | done].
  - destruct fuel' as [|fuel']; [lia|]. simpl.
    destruct (Z.ltb_spec now (Z.min end_time end_no)); [|done].
    unfold dt.
    destruct (arrival (hd quiet ts)) as [| |[|b data]];
      try done; try (apply IH; lia).
    destruct (contains _ _); [done|]. apply IH; lia.
Qed.


(** New bytes move the no-output deadline to [N] ticks after their arrival. *)
Lemma read_loop_data_resets_deadline fuel ts N end_time now end_no buf b data d1 d2 :
  (now < Z.min end_time end_no)%Z →
  contains (decode_buffer (buf ++ b :: data)) PROCESS_DONE_MARKER_START = false →
  read_loop (S fuel) (mkTick (Read (b :: data)) d1 d2 :: ts) N end_time now end_no buf
  = read_loop fuel ts N end_time (now + dt d1 + 1 + dt d2)
      (now + dt d1 + N) (buf ++ b :: data).
Proof.
  intros Hlt Hno. simpl.
  destruct (Z.ltb_spec now (Z.min end_time end_no)); [|lia].
  by rewrite Hno.
Qed.


(** *** The non-unicode guard *)

Lemma check_short_buffer (buffer : bytes) :
  (length buffer < 10)%nat →
  _check_for_too_many_non_unicode_bytes buffer = Raise (mkExn UnicodeError [too_many_msg]).
Proof.
  intros H. unfold _check_for_too_many_non_unicode_bytes, number_of_failures.
  by rewrite Nat.div_small.
Qed.

Lemma check_valid_long_buffer (buffer : bytes) :
  decode_error_start buffer = None → (10 ≤ length buffer)%nat →
  _check_for_too_many_non_unicode_bytes buffer = Ok tt.
Proof.
  intros Hv Hl. unfold _check_for_too_many_non_unicode_bytes, number_of_failures.
  destruct (length buffer / 10)%nat as [|n] eqn:E.
  - apply Nat.div_small_iff in E; lia.
  - simpl. unfold drop. by rewrite Hv.
Qed.

End ReaderFacts.

Module ReaderProps.
Import Reader ReaderFacts.




(** C8 on short buffers: whatever a buffer of fewer than ten bytes holds,
    the guard raises [UnicodeError]; the loop that looks for a decodable
    tail runs [int(0.1 * len(buffer))] = 0 times.  An empty buffer and
    [b"ok"] are such buffers, and they decode without error. *)
Theorem unicode_guard_rejects_short_buffers (buffer : bytes) :
  (length buffer < 10)%nat →
  _check_for_too_many_non_unicode_bytes buffer
  = Raise (mkExn UnicodeError [too_many_msg]).
Proof. apply check_short_buffer. Qed.

Lemma unicode_guard_rejects_short_buffers_witness :
  decode_error_start (blit "ok") = None
  ∧ _check_for_too_many_non_unicode_bytes (blit "ok")
    = Raise (mkExn UnicodeError [too_many_msg]).
Proof.
  split; [reflexivity|].
  apply (unicode_guard_rejects_short_buffers (blit "ok")). simpl. lia.
Defined.

End ReaderProps.

(** ** Properties of the container start-up *)

Module ContainerFacts.
Import Containers.

Lemma inject_succ (n : nat) :
  (inject_Z (Z.of_nat (S n)) == inject_Z (Z.of_nat n) + 1)%Q.
Proof. rewrite Nat2Z.inj_succ, <- Z.add_1_r, inject_Z_plus. reflexivity. Qed.

(** More rounds than [5 * D - total] (and at least one) change nothing:
    the loop has ended by then. *)
Lemma wait_loop_fuel D fuel : ∀ fuel' total b o w,
  (5 * D - total < inject_Z (Z.of_nat fuel))%Q → (1 ≤ fuel ≤ fuel')%nat →
  wait_loop D fuel' total b o w = wait_loop D fuel total b o w.
Proof.
  induction fuel as [|fuel IH]; intros fuel' total b o w Hlt Hle; [lia|].
  destruct fuel' as [|fuel']; [lia|]. simpl.
  destruct (aliens b o); [|done].
  unfold bind. destruct (get_background_pids w) as [[[b' o']|e] w']; [|done].
  destruct (Qle_bool (total + 1) (5 * D)) eqn:E; simpl; [|done].
  apply Qle_bool_iff in E.
  pose proof (inject_succ fuel) as Hs.
  assert (H0 : (0 < inject_Z (Z.of_nat fuel))%Q) by lra.
  assert (1 ≤ fuel)%nat.
  { destruct fuel; [|lia]. simpl in H0. unfold Qlt in H0. simpl in H0. lia. }
  apply IH; [lra | lia].
Qed.

Lemma wait_rounds_enough D :
  (5 * D - D < inject_Z (Z.of_nat (wait_rounds D)))%Q.
Proof.
  unfold wait_rounds. pose proof (Qlt_floor (4 * D)) as H.
  assert (Hz : (Qfloor (4 * D) + 1 ≤ Z.of_nat (S (Z.to_nat (Qfloor (4 * D)))))%Z) by lia.
  rewrite Zle_Qle in Hz. lra.
Qed.

(** The rounds given to the loop in [_get_persistent_container] suffice. *)
Lemma wait_loop_rounds D fuel' b o w :
  (wait_rounds D ≤ fuel')%nat →
  wait_loop D fuel' D b o w = wait_loop D (wait_rounds D) D b o w.
Proof.
  intros H. apply wait_loop_fuel; [apply wait_rounds_enough|].
  unfold wait_rounds in *. lia.
Qed.

(** *** Only [containers.run] and the status calls touch the container list *)

Lemma exec_ps_containers w : containers (exec_ps w).2 = containers w.
Proof. unfold exec_ps. by destruct (ps_outputs w). Qed.

Lemma get_background_pids_containers w :
  containers (get_background_pids w).2 = containers w.
Proof.
  unfold get_background_pids, bind. pose proof (exec_ps_containers w) as H.
  destruct (exec_ps w) as [[out|e] w']; simpl in *; [|done].
  by destruct (forallb _ _).
Qed.

Lemma wait_loop_containers D fuel : ∀ total b o w,
  containers (wait_loop D fuel total b o w).2 = containers w.
Proof.
  induction fuel as [|fuel IH]; intros total b o w; simpl.
  - by destruct (aliens b o).
  - destruct (aliens b o); [|done]. unfold bind.
    pose proof (get_background_pids_containers w) as H.
    destruct (get_background_pids w) as [[[b' o']|e] w']; simpl in *; [|done].
    destruct (negb _); simpl; [done|]. by rewrite IH.
Qed.

Lemma bind_containers {A B} (m : M world A) (k : A → M world B) w :
  (∀ w, containers (m w).2 = containers w) →
  (∀ a w, containers (k a w).2 = containers w) →
  containers (bind m k w).2 = containers w.
Proof.
  intros Hm Hk. unfold bind. specialize (Hm w).
  destruct (m w) as [[a|e] w']; simpl in *; [|done].
  by rewrite Hk.
Qed.

(** What [_get_persistent_container] does after the container is up
    leaves the container list alone. *)
Lemma attach_containers D ctr_name w :
  let m :=
    (let* _ := popen [lit "docker"; lit "exec"; lit "-i"; ctr_name; lit "/bin/bash"; lit "-l"] in
     let* _ := read_setup_output in
     let* (bash_pids, other_pids) := get_background_pids in
     let* (bash_pids, other_pids) := wait_loop D (wait_rounds D) D bash_pids other_pids in
     let* parent_pids := lift (settle bash_pids other_pids) in
     ret (ctr_name, parent_pids)) in
  containers (m w).2 = containers w.
Proof.
  cbv zeta. apply bind_containers; [done|]. intros _ w1.
  apply bind_containers; [done|]. intros _ w2.
  apply bind_containers; [apply get_background_pids_containers|]. intros [b o] w3.
  apply bind_containers; [apply wait_loop_containers|]. intros [b' o'] w4.
  apply bind_containers; [done|]. done.
Qed.

(** A launch by [_get_persistent_container] sets [auto_remove] to the
    negation of its [persistent] argument. *)
Lemma launch_honours_flag D (w : world) (ctr_name image_name : str) (persistent : bool) :
  find (named ctr_name) (containers w) = None →
  containers (_get_persistent_container D ctr_name image_name persistent w).2
  = containers w ++ [mkContainer ctr_name image_name Running (negb persistent)].
Proof.
  intros Hnone. unfold _get_persistent_container. unfold bind at 1. simpl.
  rewrite Hnone. unfold bind at 1. simpl.
  apply (attach_containers D ctr_name).
Qed.

Lemma settle_one_shell x other_pids :
  settle [x] other_pids = Ok {[field 0 x; lit "1"]}.
Proof. reflexivity. Qed.

Lemma settle_raises bash_pids other_pids :
  length bash_pids ≠ 1%nat → aliens bash_pids other_pids = true →
  settle bash_pids other_pids = Raise (mkExn RuntimeError [alien_msg]).
Proof.
  intros Hlen Ha. unfold settle. rewrite Ha.
  destruct bash_pids as [|x [|y l]]; simpl in *; congruence.
Qed.

End ContainerFacts.

Module ContainerProps.
Import Containers ContainerFacts.

(** C3 on the code: when the image exists and no container carries the
    requested name, [get_container(..., persistent=True)] launches the
    container with [auto_remove=True].  The persistent branch of
    [get_container] does not pass [persistent] on, so
    [_get_persistent_container] computes [auto_remove = not False]. *)
Theorem persistent_launch_has_auto_remove (D : Q) (w : world) (ctr_name image_name : str) :
  image_name ∈ images w →
  find (named ctr_name) (containers w) = None →
  containers (get_container D ctr_name image_name true w).2
  = containers w ++ [mkContainer ctr_name image_name Running true].
Proof.
  intros Himg Hnone. unfold get_container, image_exists.
  unfold bind at 1. unfold bind at 1. simpl.
  rewrite bool_decide_eq_true_2 by done. simpl.
  by rewrite launch_honours_flag.
Qed.

Lemma persistent_launch_has_auto_remove_witness :
  containers (get_container 1 ContainerInputs.box ContainerInputs.img true
                ContainerInputs.fresh).2
  = [mkContainer ContainerInputs.box ContainerInputs.img Running true].
Proof.
  apply (persistent_launch_has_auto_remove 1 ContainerInputs.fresh
           ContainerInputs.box ContainerInputs.img).
  - apply (bool_decide_unpack _). vm_compute. exact I.
  - reflexivity.
Defined.

(** C4 on the code: with exactly one shell in the process list the
    start-up never raises the alien-processes error, whatever else is
    running.  In the world [with_alien] every [ps] shows a [python]
    process next to the session shell; after the bounded wait
    [get_container] returns the session with parent PIDs {7, 1}.  The
    error is raised only when the number of shells is not one. *)
Theorem alien_beside_one_shell_is_accepted :
  (∀ x other_pids, settle [x] other_pids = Ok {[field 0 x; lit "1"]})
  ∧ (∀ bash_pids other_pids,
       length bash_pids ≠ 1%nat → aliens bash_pids other_pids = true →
       settle bash_pids other_pids = Raise (mkExn RuntimeError [alien_msg]))
  ∧ (get_background_pids ContainerInputs.with_alien).1
    = Ok ([[lit "7"; lit "bash"]], [[lit "9"; lit "python"]])
  ∧ (get_container 1 ContainerInputs.box ContainerInputs.img true
       ContainerInputs.with_alien).1
    = Ok (ContainerInputs.box, {[lit "7"; lit "1"]}).
Proof.
  split; [exact settle_one_shell|].
  split; [exact settle_raises|].
  split; vm_compute; reflexivity.
Qed.

Lemma alien_beside_one_shell_is_accepted_witness :
  settle [] [[lit "9"; lit "python"]] = Raise (mkExn RuntimeError [alien_msg]).
Proof.
  apply (proj1 (proj2 alien_beside_one_shell_is_accepted)).
  - simpl. lia.
  - reflexivity.
Defined.

End ContainerProps.

(** ** Properties of [communicate] and [step] *)

Module EnvProps.
Import Env.

(** C9.  When [input.strip()] is [exit], [communicate] returns the empty
    string and leaves the environment as it was except for three things:
    the shell subprocess has been terminated once more, [returncode] is 0
    and [communicate_output] is the empty string.  In particular nothing
    was written to the shell's stdin and none of the shell's answers was
    read, so no syntax check took place. *)
Theorem communicate_exit_terminates_shell
    (input : str) (timeout_duration no_output_timeout_duration : Z) (w : env) :
  strip input = lit "exit" →
  communicate input timeout_duration no_output_timeout_duration w
  = (Ok [],
     mkEnv (cfg w) (Some 0%Z) (Some []) (persistent w) (parent_pids w)
       (stdin_log w) (S (terminations w)) (pipe_broken w) (answers w) (drains w)
       (container_obj w) (removed w) (kills w) (ps_outputs w) (ps_steady w)).
Proof.
  intros H. unfold communicate, str_eqb.
  rewrite bool_decide_eq_true_2 by done. reflexivity.
Qed.

Lemma communicate_exit_terminates_shell_witness :
  let w := EnvInputs.hanging_session in
  let r := communicate (lit "  exit
") 2500 2500 w in
  r.1 = Ok [] ∧ stdin_log r.2 = [] ∧ answers r.2 = answers w
  ∧ terminations r.2 = 1%nat ∧ returncode r.2 = Some 0%Z
  ∧ communicate_output r.2 = Some [].
Proof.
  cbv zeta.
  rewrite (communicate_exit_terminates_shell (lit "  exit
") 2500 2500 EnvInputs.hanging_session) by reflexivity.
  repeat split.
Defined.






(** *** A timed-out command in [step] *)

Lemma step_ordinary_action action w :
  strip action ≠ lit "skip" → action ∉ EXIT_ACTIONS →
  step action w
  = let '(r, w') := communicate (action_hacking action) (LONG_TIMEOUT (cfg w))
                      (AGENT_ACTION_NO_OUTPUT_TIMEOUT (cfg w)) w in
    after_communicate r w'.
Proof.
  intros H1 H2. unfold step, str_eqb.
  rewrite bool_decide_eq_false_2 by done.
  rewrite bool_decide_eq_false_2 by done. reflexivity.
Qed.

(** C10.  [NoOutputTimeoutError] is a subclass of [TimeoutError].  When
    the [communicate] call of [step] raises either of them, [step] runs the
    same recovery on the same data (the second argument of the
    exception): two exceptions that differ in class and message only lead
    to the same result and the same environment.  The recovery calls
    [interrupt()], and when that returns, the observation is the partial
    output, what [interrupt] read, and the time-out banner. *)
Theorem no_output_timeout_handled_as_timeout :
  base NoOutputTimeoutError = Some TimeoutError
  ∧ issubclass NoOutputTimeoutError TimeoutError = true
  ∧ (∀ action w, strip action ≠ lit "skip" → action ∉ EXIT_ACTIONS →
       step action w
       = let '(r, w') := communicate (action_hacking action) (LONG_TIMEOUT (cfg w))
                           (AGENT_ACTION_NO_OUTPUT_TIMEOUT (cfg w)) w in
         after_communicate r w')
  ∧ (∀ msg msg' body w,
       after_communicate (Raise (mkExn NoOutputTimeoutError [msg; body])) w
       = after_communicate (Raise (mkExn TimeoutError [msg'; body])) w)
  ∧ (∀ e w out w',
       cls e = NoOutputTimeoutError ∨ cls e = TimeoutError →
       interrupt w = (Ok out, w') →
       after_communicate (Raise e) w = finish (arg1 e ++ out ++ TIMEOUT_BANNER) w').
Proof.
  split; [reflexivity|]. split; [reflexivity|].
  split; [exact step_ordinary_action|]. split.
  - intros msg msg' body w. reflexivity.
  - intros [c a] w out w' Hc Hi. simpl in Hc.
    unfold after_communicate, caught_by. simpl.
    assert (issubclass c TimeoutError = true) as -> by (destruct Hc; subst; reflexivity).
    unfold timeout_recovery. by rewrite Hi.
Qed.

(** A command that prints [par] and hangs: the reader raises
    [NoOutputTimeoutError], [step] kills the [sleep] process and reports
    the partial output followed by the banner. *)
Lemma no_output_timeout_handled_as_timeout_witness :
  let r := step (lit "sleep 1000") EnvInputs.hanging_session in
  r.1 = Ok (Some (lit "par" ++ TIMEOUT_BANNER), 0%Z, false, no_info)
  ∧ kills r.2 = [lit "42"].
Proof.
  cbv zeta.
  rewrite (proj1 (proj2 (proj2 no_output_timeout_handled_as_timeout))
             (lit "sleep 1000") EnvInputs.hanging_session).
  - split; vm_compute; reflexivity.
  - vm_compute. discriminate.
  - apply (bool_decide_unpack _). vm_compute. exact I.
Defined.

End EnvProps.
